(** * Tag0: tagged scalar words, their bump arena and generalized addition

    A shallow embedding of [Tag0.cpp].  Machine integers are integers of [Z]
    with their wrap-around written out, [double] is the kernel's binary64
    float, the templates [TagTraits<T>] and [ConstexprHeap<T, N>] are a type
    class and a record over the slot type, and the code that mutates an arena
    passes the arena through explicitly. *)

From Stdlib Require Import ZArith Lia Bool.
From Stdlib Require Import PrimFloat FloatOps SpecFloat.
From stdpp Require Import base option list.

Local Open Scope Z_scope.

(** ** Machine integers *)

(** [int64_t]: a signed 64-bit two's-complement integer. *)
Definition int64_t := Z.

(** [size_t] on the 64-bit targets the program is built for. *)
Definition size_t := Z.

(** [double]: IEEE 754 binary64. *)
Definition double := float.

Module Int64.

Definition min_signed : Z := - 2 ^ 63.
Definition max_signed : Z := 2 ^ 63 - 1.

Definition in_range (z : Z) : Prop := min_signed <= z <= max_signed.

(** Reduction of a mathematical integer to its [int64_t] representative. *)
Definition wrap (z : Z) : int64_t := (z + 2 ^ 63) mod 2 ^ 64 - 2 ^ 63.

(** [a + b]; the wrap-around is what the hardware does (the only sum the
    program forms is of two decoded payloads, which cannot overflow, see
    [payload_sum_in_range] below). *)
Definition add (a b : int64_t) : int64_t := wrap (a + b).

(** [a << k] on [int64_t]: the bits shifted out at the top are lost, as
    C++20 defines the signed shift and as the compilers of the earlier
    standards compute it. *)
Definition shl (a : int64_t) (k : Z) : int64_t := wrap (Z.shiftl a k).

(** [a >> k] on [int64_t]: arithmetic, the sign is kept. *)
Definition shr (a : int64_t) (k : Z) : int64_t := Z.shiftr a k.

Definition or (a b : int64_t) : int64_t := Z.lor a b.
Definition and (a b : int64_t) : int64_t := Z.land a b.

(** [static_cast<int64_t>(s)] of a [size_t]. *)
Definition of_size_t (s : size_t) : int64_t := wrap s.

End Int64.

Module SizeT.

Definition wrap (z : Z) : size_t := z mod 2 ^ 64.

(** The implicit conversion of an [int64_t] to [size_t]. *)
Definition of_int64 (z : int64_t) : size_t := wrap z.

End SizeT.

(** The payload of an Integer-kind word has 61 bits: what survives
    [<< 3] followed by [>> 3] in a 64-bit word. *)
Definition wrap61 (z : Z) : Z := (z + 2 ^ 60) mod 2 ^ 61 - 2 ^ 60.

(** ** Type policies *)

Module IntPolicy.
Definition tag : int64_t := 0.
Definition tag_value (value : int64_t) : int64_t :=
  Int64.or (Int64.shl value 3) tag.
Definition untag_value (value : int64_t) : int64_t := Int64.shr value 3.
End IntPolicy.

Module DoublePolicy.
Definition tag : int64_t := 1.
End DoublePolicy.

Module BoolPolicy.
Definition tag : int64_t := 3.
Definition tag_value (value : bool) : int64_t :=
  Int64.or (if value then 1 else 0) tag.
Definition untag_value (value : int64_t) : bool :=
  negb (Int64.and value (Z.lnot 7) =? 0).
End BoolPolicy.

(** [TagTraits<T>]: the primary template has no definition, the three
    specializations inherit a policy. *)
Class TagTraits (T : Type) : Type := { tag : int64_t }.
Global Arguments tag T {_}.

#[global] Instance TagTraits_int64_t : TagTraits int64_t := {| tag := IntPolicy.tag |}.
#[global] Instance TagTraits_double : TagTraits double := {| tag := DoublePolicy.tag |}.
#[global] Instance TagTraits_bool : TagTraits bool := {| tag := BoolPolicy.tag |}.

(** The conversion of an integer literal or value to the slot type:
    what [return -1;] does in a function that returns [T], what
    value-initialization [storage{}] does with [0], and, at [double],
    [static_cast<double>] of an [int64_t] (round to nearest, ties to even). *)
Class OfInt (T : Type) : Type := { of_int : Z -> T }.

#[global] Instance OfInt_int64_t : OfInt int64_t := {| of_int := Int64.wrap |}.
#[global] Instance OfInt_double : OfInt double :=
  {| of_int := fun z => SF2Prim (binary_normalize prec emax z 0 false) |}.

(** ** Tagged values *)

Record TaggedValue : Type := { raw : int64_t }.

(** [is_type<T, Heap>()] *)
Definition is_type (T : Type) `{TagTraits T} (self : TaggedValue) : bool :=
  Int64.and (raw self) 7 =? tag T.

(** [as<int64_t, Heap>(heap)]; the heap is not looked at. *)
Definition as_int64_t {Heap : Type} (self : TaggedValue) (heap : Heap) : int64_t :=
  if is_type int64_t self then IntPolicy.untag_value (raw self) else -1.

(** [as<bool, Heap>(heap)] *)
Definition as_bool {Heap : Type} (self : TaggedValue) (heap : Heap) : bool :=
  if is_type bool self then BoolPolicy.untag_value (raw self) else false.

(** [from<int64_t>(value, heap)]: the heap comes in by reference and goes
    out as it came. *)
Definition from_int64_t {Heap : Type} (value : int64_t) (heap : Heap)
  : TaggedValue * Heap :=
  ({| raw := IntPolicy.tag_value value |}, heap).

(** [from<bool>(value, heap)] *)
Definition from_bool {Heap : Type} (value : bool) (heap : Heap)
  : TaggedValue * Heap :=
  ({| raw := BoolPolicy.tag_value value |}, heap).


(** ** The arena *)

(** [ConstexprHeap<T, N>]: [storage] is the [std::array<T, N>], so the
    capacity [N] is its length; [next_index] is the cursor. *)
Record ConstexprHeap (T : Type) : Type :=
  { storage : list T; next_index : size_t }.
Global Arguments storage {T} _.
Global Arguments next_index {T} _.

(** The template argument [N]. *)
Definition capacity {T : Type} (heap : ConstexprHeap T) : size_t :=
  Z.of_nat (length (storage heap)).

(** A default-constructed [ConstexprHeap<T, N>]: [storage{}] and
    [next_index = 0]. *)
Definition new_heap (T : Type) `{OfInt T} (N : nat) : ConstexprHeap T :=
  {| storage := replicate N (of_int 0); next_index := 0 |}.

(** What the types give for free in the program: the cursor is a [size_t]
    that never passes [N], and an array of [N] eight-byte slots is an
    object, so its size [8 * N] is below [2 ^ 63]. *)
Definition heap_wf {T : Type} (heap : ConstexprHeap T) : Prop :=
  0 <= next_index heap <= capacity heap /\ capacity heap < 2 ^ 60.

(** The index part of an encoded pointer, as [dereference] reads it:
    [size_t index = (ptr >> 3);]. *)
Definition ptr_index (ptr : int64_t) : size_t :=
  SizeT.of_int64 (Int64.shr ptr 3).

Section Heap.
Context {T : Type} `{TagTraits T} `{OfInt T}.

(** [allocate(value)]: the result and the arena after the call. *)
Definition allocate (value : T) (heap : ConstexprHeap T)
  : int64_t * ConstexprHeap T :=
  if capacity heap <=? next_index heap then (-1, heap)
  else
    (Int64.or (Int64.shl (Int64.of_size_t (next_index heap)) 3) (tag T),
     {| storage := <[Z.to_nat (next_index heap) := value]> (storage heap);
        next_index := SizeT.wrap (next_index heap + 1) |}).

(** [dereference(ptr)]; below the bounds check the index is inside the
    array, the [None] branch is never taken
    (see [dereference_in_range]). *)
Definition dereference (heap : ConstexprHeap T) (ptr : int64_t) : T :=
  let index := ptr_index ptr in
  if capacity heap <=? index then of_int (-1)
  else
    match storage heap !! Z.to_nat index with
    | Some v => v
    | None => of_int (-1)
    end.

End Heap.

(** ** Calls that may stop the program *)

(** A call returns, or an [assert] fails and the program is aborted. *)
Inductive outcome (A : Type) : Type :=
| Returned (a : A)
| Aborted.
Global Arguments Returned {A} a.
Global Arguments Aborted {A}.

#[global] Instance outcome_ret : MRet outcome := fun A a => Returned a.
#[global] Instance outcome_bind : MBind outcome := fun A B f m =>
  match m with
  | Returned a => f a
  | Aborted => Aborted
  end.

(** [assert(cond)]; with [NDEBUG] defined the macro expands to nothing. *)
Definition assert_ (NDEBUG : bool) (cond : bool) : outcome unit :=
  if NDEBUG || cond then Returned tt else Aborted.

(** [as<double, Heap>(heap)] *)
Definition as_double (self : TaggedValue) (heap : ConstexprHeap double) : double :=
  if is_type double self then dereference heap (raw self) else (-1)%float.

Section Assertions.
Variable NDEBUG : bool.

(** [from<double>(value, heap)] *)
Definition from_double (value : double) (heap : ConstexprHeap double)
  : outcome (TaggedValue * ConstexprHeap double) :=
  let '(ptr, heap) := allocate value heap in
  if ptr =? -1 then
    _ ← assert_ NDEBUG false;
    Returned ({| raw := -1 |}, heap)
  else Returned ({| raw := ptr |}, heap).

(** The operand conversions [fa] and [fb] of [add]. *)
Definition promote {IntHeap : Type} (a : TaggedValue)
    (int_heap : IntHeap) (double_heap : ConstexprHeap double) : double :=
  if is_type int64_t a
  then of_int (as_int64_t a int_heap)
  else as_double a double_heap.

(** [add(a, b, int_heap, double_heap)]: the result and the two arenas
    after the call. *)
Definition add {IntHeap : Type} (a b : TaggedValue)
    (int_heap : IntHeap) (double_heap : ConstexprHeap double)
  : outcome (TaggedValue * IntHeap * ConstexprHeap double) :=
  if is_type int64_t a && is_type int64_t b then
    let '(r, int_heap) :=
      from_int64_t
        (Int64.add (as_int64_t a int_heap) (as_int64_t b int_heap)) int_heap in
    Returned (r, int_heap, double_heap)
  else
    let fa := promote a int_heap double_heap in
    let fb := promote b int_heap double_heap in
    '(r, double_heap) ← from_double (fa + fb)%float double_heap;
    Returned (r, int_heap, double_heap).

(** [test_tagging()] *)
Definition test_tagging : outcome double :=
  let int_heap := new_heap int64_t 8 in
  let double_heap := new_heap double 8 in
  let '(a, int_heap) := from_int64_t 10 int_heap in
  _ ← assert_ NDEBUG (negb (raw a =? -1));
  '(b, double_heap) ← from_double 20.5%float double_heap;
  _ ← assert_ NDEBUG (negb (raw b =? -1));
  '(result, int_heap, double_heap) ← add a b int_heap double_heap;
  Returned (as_double result double_heap).

End Assertions.

(** [test_heap_overflow()] *)
Definition test_heap_overflow : bool :=
  let heap := new_heap double 1 in
  let '(first, heap) := allocate 1%float heap in
  let ok_first := negb (first =? -1) in
  let '(second, heap) := allocate 2%float heap in
  let ok_second := second =? -1 in
  ok_first && ok_second.

(** The arena after a run of [allocate] calls, one per value and in the
    order of the list; the pointers are dropped. *)
Fixpoint allocate_all {T : Type} `{TagTraits T} `{OfInt T}
    (values : list T) (heap : ConstexprHeap T) : ConstexprHeap T :=
  match values with
  | [] => heap
  | value :: values => allocate_all values (allocate value heap).2
  end.


(** * Properties *)

(** ** Machine arithmetic *)

Lemma wrap_in_range z : Int64.in_range (Int64.wrap z).
Proof.
  unfold Int64.in_range, Int64.wrap, Int64.min_signed, Int64.max_signed.
  pose proof (Z.mod_pos_bound (z + 2 ^ 63) (2 ^ 64)). lia.
Qed.

Lemma wrap_small z : Int64.in_range z -> Int64.wrap z = z.
Proof.
  unfold Int64.in_range, Int64.wrap, Int64.min_signed, Int64.max_signed.
  intros Hz. rewrite Z.mod_small; lia.
Qed.

Lemma wrap_congr z : exists q, Int64.wrap z = z - 2 ^ 64 * q.
Proof.
  exists ((z + 2 ^ 63) / 2 ^ 64). unfold Int64.wrap.
  pose proof (Z.div_mod (z + 2 ^ 63) (2 ^ 64)). lia.
Qed.

Lemma wrap_mod8 z : Int64.wrap z mod 8 = z mod 8.
Proof.
  destruct (wrap_congr z) as [q ->].
  replace (z - 2 ^ 64 * q) with (z + (- (2 ^ 61 * q)) * 8) by lia.
  apply Z.mod_add. lia.
Qed.

Lemma land7_mod8 z : Z.land z 7 = z mod 8.
Proof. exact (Z.land_ones z 3 ltac:(lia)). Qed.

Lemma shl3_shr3 v : Int64.shr (Int64.shl v 3) 3 = wrap61 v.
Proof.
  unfold Int64.shr, Int64.shl, Int64.wrap, wrap61.
  rewrite Z.shiftl_mul_pow2, Z.shiftr_div_pow2 by lia.
  replace (v * 2 ^ 3 + 2 ^ 63) with (2 ^ 3 * (v + 2 ^ 60)) by lia.
  replace (2 ^ 64) with (2 ^ 3 * 2 ^ 61) by lia.
  rewrite Z.mul_mod_distr_l by lia.
  replace (2 ^ 3 * ((v + 2 ^ 60) mod 2 ^ 61) - 2 ^ 63)
    with (((v + 2 ^ 60) mod 2 ^ 61 - 2 ^ 60) * 2 ^ 3) by lia.
  apply Z.div_mul. lia.
Qed.

Lemma lor_low_bits x t : 0 <= t < 8 -> Z.lor (8 * x) t = 8 * x + t.
Proof.
  intros Ht. symmetry.
  rewrite Z.add_nocarry_lxor, Z.lxor_lor; try reflexivity.
  all: apply Z.bits_inj'; intros n Hn; rewrite Z.land_spec, Z.bits_0.
  all: destruct (Z.lt_ge_cases n 3) as [Hlt | Hge].
  all: try (replace (8 * x) with (x * 2 ^ 3) by lia;
            rewrite Z.mul_pow2_bits_low by lia; reflexivity).
  all: rewrite (Z.bits_above_log2 t n), andb_false_r; try reflexivity; try lia.
  all: destruct (Z.eq_dec t 0) as [-> | Hne]; [simpl; lia|].
  all: apply Z.log2_lt_pow2; try lia; apply Z.lt_le_trans with (2 ^ 3); try lia;
       apply Z.pow_le_mono_r; lia.
Qed.

(** An Integer-kind word has the tag bits clear. *)
Lemma tag_value_int_tag v : Int64.and (IntPolicy.tag_value v) 7 = 0.
Proof.
  unfold IntPolicy.tag_value, Int64.and, Int64.or, Int64.shl, IntPolicy.tag.
  rewrite Z.lor_0_r, land7_mod8, wrap_mod8, Z.shiftl_mul_pow2 by lia.
  apply Z.mod_mul. lia.
Qed.

Lemma is_type_from_int64_t {Heap : Type} v (heap : Heap) :
  is_type int64_t (from_int64_t v heap).1 = true.
Proof.
  unfold is_type. simpl. rewrite tag_value_int_tag. reflexivity.
Qed.

(** Encoding then decoding an integer keeps its low 61 bits. *)
Lemma as_from_int64_t {Heap : Type} v (heap heap' : Heap) :
  as_int64_t (from_int64_t v heap).1 heap' = wrap61 v.
Proof.
  unfold as_int64_t. rewrite is_type_from_int64_t. simpl.
  unfold IntPolicy.untag_value, IntPolicy.tag_value, Int64.or, IntPolicy.tag.
  rewrite Z.lor_0_r. apply shl3_shr3.
Qed.

(** The word of an Integer-kind value is an [int64_t]. *)
Lemma from_int64_t_in_range {Heap : Type} v (heap : Heap) :
  Int64.in_range (raw (from_int64_t v heap).1).
Proof.
  simpl. unfold IntPolicy.tag_value, Int64.or, IntPolicy.tag, Int64.shl.
  rewrite Z.lor_0_r. apply wrap_in_range.
Qed.

Lemma wrap61_small z : - 2 ^ 60 <= z < 2 ^ 60 -> wrap61 z = z.
Proof. intros Hz. unfold wrap61. rewrite Z.mod_small; lia. Qed.

Lemma wrap61_range z : - 2 ^ 60 <= wrap61 z < 2 ^ 60.
Proof.
  unfold wrap61. pose proof (Z.mod_pos_bound (z + 2 ^ 60) (2 ^ 61)). lia.
Qed.

Lemma wrap61_wrap z : wrap61 (Int64.wrap z) = wrap61 z.
Proof.
  destruct (wrap_congr z) as [q ->]. unfold wrap61. f_equal.
  replace (z - 2 ^ 64 * q + 2 ^ 60) with (z + 2 ^ 60 + (- (8 * q)) * 2 ^ 61) by lia.
  apply Z.mod_add. lia.
Qed.

(** ** Round trips *)

(** C1. Boolean round trip.  [BoolPolicy::tag_value] ors the bit into the
    tag, whose bit 0 is already set: both booleans are encoded as the word
    [0b011], and [untag_value], which looks above the tag, reads [false]
    from it.  So [as<bool>(from<bool>(true))] is [false], not [true]. *)
Theorem bool_roundtrip_loses_true :
  forall (b : bool),
    raw (from_bool b tt).1 = 3 /\
    is_type bool (from_bool b tt).1 = true /\
    as_bool (from_bool b tt).1 tt = false.
Proof. intros []; repeat split. Qed.

(** C2, as the code has it: an integer inside the 61-bit payload range
    survives [from<int64_t>] followed by [as<int64_t>]. *)
Theorem int_roundtrip :
  forall (Heap : Type) (heap : Heap) (i : int64_t),
    - 2 ^ 60 <= i < 2 ^ 60 ->
    as_int64_t (from_int64_t i heap).1 heap = i.
Proof.
  intros Heap heap i Hi. rewrite as_from_int64_t. apply wrap61_small, Hi.
Qed.

Lemma int_roundtrip_witness :
  as_int64_t (from_int64_t (-5) tt).1 tt = -5.
Proof. apply (int_roundtrip unit tt (-5)). lia. Defined.

(** C2 as stated fails outside that range: [2 ^ 60] is an [int64_t], its
    encoding [2 ^ 60 << 3] is the word [- 2 ^ 63], which decodes to
    [- 2 ^ 60]. *)
Lemma int_roundtrip_counterexample :
  Int64.in_range (2 ^ 60) /\
  raw (from_int64_t (2 ^ 60) tt).1 = - 2 ^ 63 /\
  as_int64_t (from_int64_t (2 ^ 60) tt).1 tt = - 2 ^ 60 /\
  as_int64_t (from_int64_t (2 ^ 60) tt).1 tt <> 2 ^ 60.
Proof.
  repeat split; try (vm_compute; congruence).
Qed.

(** ** The arena *)

Lemma ptr_index_nonneg ptr : 0 <= ptr_index ptr < 2 ^ 64.
Proof. unfold ptr_index, SizeT.of_int64, SizeT.wrap. apply Z.mod_pos_bound. lia. Qed.

(** An index below [2 ^ 60] is encoded without loss. *)
Lemma encode_small idx t :
  0 <= idx < 2 ^ 60 ->
  Int64.or (Int64.shl (Int64.of_size_t idx) 3) t = Z.lor (Z.shiftl idx 3) t.
Proof.
  intros Hidx. unfold Int64.or, Int64.shl, Int64.of_size_t. f_equal.
  rewrite (wrap_small idx) by (unfold Int64.in_range, Int64.min_signed, Int64.max_signed; lia).
  apply wrap_small. rewrite Z.shiftl_mul_pow2 by lia.
  unfold Int64.in_range, Int64.min_signed, Int64.max_signed. lia.
Qed.

Lemma ptr_index_encoded idx t :
  0 <= idx < 2 ^ 60 -> 0 <= t < 8 ->
  ptr_index (Z.lor (Z.shiftl idx 3) t) = idx.
Proof.
  intros Hidx Ht. unfold ptr_index, SizeT.of_int64, SizeT.wrap, Int64.shr.
  rewrite Z.shiftl_mul_pow2, Z.shiftr_div_pow2 by lia.
  replace (idx * 2 ^ 3) with (8 * idx) by lia. rewrite lor_low_bits by lia.
  replace (8 * idx + t) with (t + idx * 2 ^ 3) by lia.
  rewrite Z.div_add, Z.div_small by lia. apply Z.mod_small. lia.
Qed.

(** The low three bits of an encoded pointer are the tag, whatever the index. *)
Lemma encode_tag x t :
  0 <= t < 8 -> Int64.and (Int64.or (Int64.shl x 3) t) 7 = t.
Proof.
  intros Ht. unfold Int64.and, Int64.or, Int64.shl.
  destruct (wrap_congr (Z.shiftl x 3)) as [q ->].
  rewrite Z.shiftl_mul_pow2 by lia.
  replace (x * 2 ^ 3 - 2 ^ 64 * q) with (8 * (x - 2 ^ 61 * q)) by lia.
  rewrite lor_low_bits, land7_mod8 by lia.
  replace (8 * (x - 2 ^ 61 * q) + t) with (t + (x - 2 ^ 61 * q) * 8) by lia.
  rewrite Z.mod_add by lia. apply Z.mod_small. lia.
Qed.

Section HeapFacts.
Context {T : Type} `{TagTraits T} `{OfInt T}.
Implicit Types (heap : ConstexprHeap T) (value : T) (ptr : int64_t).

Lemma allocate_full heap value :
  capacity heap <= next_index heap -> allocate value heap = (-1, heap).
Proof.
  intros Hfull. unfold allocate.
  destruct (Z.leb_spec (capacity heap) (next_index heap)); [reflexivity | lia].
Qed.

Lemma allocate_room heap value :
  next_index heap < capacity heap ->
  allocate value heap =
    (Int64.or (Int64.shl (Int64.of_size_t (next_index heap)) 3) (tag T),
     {| storage := <[Z.to_nat (next_index heap) := value]> (storage heap);
        next_index := SizeT.wrap (next_index heap + 1) |}).
Proof.
  intros Hroom. unfold allocate.
  destruct (Z.leb_spec (capacity heap) (next_index heap)); [lia | reflexivity].
Qed.

Lemma allocate_capacity heap value :
  capacity (allocate value heap).2 = capacity heap.
Proof.
  unfold allocate. destruct (capacity heap <=? next_index heap); [reflexivity|].
  unfold capacity. simpl. rewrite length_insert. reflexivity.
Qed.

(** Well-formedness is an invariant of the arena's two constructors of
    states: default construction and [allocate]. *)
Lemma new_heap_wf (N : nat) : Z.of_nat N < 2 ^ 60 -> heap_wf (new_heap T N).
Proof.
  intros HN. unfold heap_wf, capacity, new_heap. simpl.
  rewrite length_replicate. lia.
Qed.

Lemma allocate_wf heap value : heap_wf heap -> heap_wf (allocate value heap).2.
Proof.
  intros [Hidx Hcap]. unfold heap_wf. rewrite allocate_capacity.
  split; [|exact Hcap]. unfold allocate.
  destruct (Z.leb_spec (capacity heap) (next_index heap)); simpl; [lia|].
  unfold SizeT.wrap. rewrite Z.mod_small; lia.
Qed.

(** The cursor never moves back. *)
Lemma allocate_cursor_mono heap value :
  heap_wf heap -> next_index heap <= next_index (allocate value heap).2.
Proof.
  intros [Hidx Hcap]. unfold allocate.
  destruct (Z.leb_spec (capacity heap) (next_index heap)); simpl; [lia|].
  unfold SizeT.wrap. rewrite Z.mod_small; lia.
Qed.

(** A slot other than the one under the cursor is not touched. *)
Lemma allocate_other_slots heap value (i : Z) :
  heap_wf heap -> 0 <= i -> i <> next_index heap ->
  storage (allocate value heap).2 !! Z.to_nat i = storage heap !! Z.to_nat i.
Proof.
  intros [Hidx _] Hi Hne. unfold allocate.
  destruct (capacity heap <=? next_index heap); [reflexivity|]. simpl.
  apply list_lookup_insert_ne. lia.
Qed.

(** Below the bounds check the slot exists. *)
Lemma dereference_in_range heap ptr :
  ptr_index ptr < capacity heap ->
  storage heap !! Z.to_nat (ptr_index ptr) = Some (dereference heap ptr).
Proof.
  intros Hin. unfold dereference.
  destruct (Z.leb_spec (capacity heap) (ptr_index ptr)); [lia|].
  destruct (storage heap !! Z.to_nat (ptr_index ptr)) eqn:Hl; [reflexivity|].
  apply lookup_ge_None in Hl. unfold capacity in Hin.
  pose proof (ptr_index_nonneg ptr). lia.
Qed.

Lemma dereference_out_of_range heap ptr :
  capacity heap <= ptr_index ptr -> dereference heap ptr = of_int (-1).
Proof.
  intros Hout. unfold dereference.
  destruct (Z.leb_spec (capacity heap) (ptr_index ptr)); [reflexivity | lia].
Qed.

End HeapFacts.

(** ** Typed access *)

(** The sentinel [-1] of [dereference], converted to [double], is [-1.0]. *)
Lemma of_int_double_minus_one : (of_int (-1) : double) = (-1)%float.
Proof. reflexivity. Qed.

(** C5. Access at a kind the tag does not name yields the default of the
    requested kind, [-1], [-1.0] or [false], and no error; so for the three
    mixed accesses of the specification. *)
Theorem type_mismatch_default :
  forall (Heap : Type) (heap : Heap) (double_heap : ConstexprHeap double)
         (self : TaggedValue),
    (is_type int64_t self = false -> as_int64_t self heap = -1) /\
    (is_type double self = false -> as_double self double_heap = (-1)%float) /\
    (is_type bool self = false -> as_bool self heap = false) /\
    as_int64_t (from_bool true heap).1 heap = -1 /\
    as_bool (from_int64_t 5 heap).1 heap = false /\
    as_double (from_int64_t 5 heap).1 double_heap = (-1)%float.
Proof.
  intros Heap heap double_heap self.
  unfold as_int64_t, as_double, as_bool.
  repeat split; try (intros ->; reflexivity); reflexivity.
Qed.

Lemma type_mismatch_default_witness :
  as_int64_t {| raw := 3 |} tt = -1 /\
  as_double {| raw := 3 |} (new_heap double 8) = (-1)%float /\
  as_bool {| raw := 9 |} tt = false.
Proof.
  pose proof (type_mismatch_default unit tt (new_heap double 8) {| raw := 3 |})
    as (Hint & Hdouble & _).
  pose proof (type_mismatch_default unit tt (new_heap double 8) {| raw := 9 |})
    as (_ & _ & Hbool & _).
  split; [apply Hint; reflexivity|].
  split; [apply Hdouble; reflexivity|].
  apply Hbool; reflexivity.
Defined.

(** ** Allocation and dereference *)

(** C7. [allocate] with room left writes the value under the cursor, moves
    the cursor forward by one and returns the old cursor shifted left by
    three bits and or-ed with the tag of the slot type (no bit of the index
    is lost); on every call, full or not, the cursor does not move back and
    every slot other than the one under the old cursor keeps its content. *)
Theorem allocate_postcondition :
  forall (T : Type) (TT : TagTraits T) (OI : OfInt T)
         (heap : ConstexprHeap T) (value : T),
    heap_wf heap ->
    let ptr := (allocate value heap).1 in
    let heap' := (allocate value heap).2 in
    (next_index heap < capacity heap ->
       storage heap' !! Z.to_nat (next_index heap) = Some value /\
       next_index heap' = next_index heap + 1 /\
       ptr = Z.lor (Z.shiftl (next_index heap) 3) (tag T)) /\
    next_index heap <= next_index heap' /\
    capacity heap' = capacity heap /\
    (forall i : Z, 0 <= i -> i <> next_index heap ->
       storage heap' !! Z.to_nat i = storage heap !! Z.to_nat i).
Proof.
  intros T TT OI heap value Hwf. cbv zeta.
  split; [|split; [|split]].
  - intros Hroom. destruct Hwf as [Hidx Hcap].
    rewrite allocate_room by exact Hroom. simpl.
    split; [|split].
    + apply list_lookup_insert_eq. unfold capacity in Hroom. lia.
    + unfold SizeT.wrap. apply Z.mod_small. lia.
    + apply encode_small. lia.
  - apply allocate_cursor_mono, Hwf.
  - apply allocate_capacity.
  - intros i Hi Hne. apply allocate_other_slots; assumption.
Qed.

Lemma allocate_postcondition_witness :
  let heap := (allocate 1%float (new_heap double 8)).2 in
  let ptr := (allocate 2%float heap).1 in
  let heap' := (allocate 2%float heap).2 in
  (storage heap' !! 1%nat = Some 2%float /\
   next_index heap' = 2 /\
   ptr = 9) /\
  storage heap' !! 0%nat = Some 1%float.
Proof.
  cbv zeta.
  pose proof (allocate_postcondition double _ _
                (allocate 1%float (new_heap double 8)).2 2%float) as Hpost.
  cbv zeta in Hpost.
  destruct Hpost as (Hroom & _ & _ & Hother).
  - apply allocate_wf, new_heap_wf. simpl. lia.
  - split.
    + apply Hroom. vm_compute. reflexivity.
    + refine (Hother 0 _ _); [lia | vm_compute; congruence].
Defined.

(** The overflow sentinel is no encoded pointer: its low three bits are
    [0b111], which is the tag of no kind. *)
Lemma allocate_room_not_sentinel
    {T : Type} `{TagTraits T} `{OfInt T} (heap : ConstexprHeap T) (value : T) :
  0 <= tag T < 7 ->
  next_index heap < capacity heap ->
  (allocate value heap).1 <> -1.
Proof.
  intros Htag Hroom Heq. rewrite allocate_room in Heq by exact Hroom.
  simpl in Heq. apply (f_equal (fun p => Int64.and p 7)) in Heq.
  rewrite encode_tag in Heq by lia.
  change (Int64.and (-1) 7) with 7 in Heq. lia.
Qed.

(** C6. In an arena of one slot the first [allocate] returns a pointer,
    the second returns the sentinel [-1] and leaves the arena as the first
    call left it: the slot still holds the first value, and the first
    pointer still dereferences to it.  No successful [allocate], in any
    arena, returns [-1].  This is what [test_heap_overflow] asserts. *)
Theorem arena_exhaustion :
  forall (T : Type) (TT : TagTraits T) (OI : OfInt T)
         (heap : ConstexprHeap T) (v1 v2 : T),
    0 <= tag T < 7 ->
    capacity heap = 1 -> next_index heap = 0 ->
    let first := (allocate v1 heap).1 in
    let heap1 := (allocate v1 heap).2 in
    let second := (allocate v2 heap1).1 in
    let heap2 := (allocate v2 heap1).2 in
    first <> -1 /\
    second = -1 /\
    heap2 = heap1 /\
    storage heap2 = [v1] /\
    dereference heap2 first = v1 /\
    (forall (h : ConstexprHeap T) (v : T),
       next_index h < capacity h -> (allocate v h).1 <> -1) /\
    test_heap_overflow = true.
Proof.
  intros T TT OI [slots cursor] v1 v2 Htag Hcap Hidx. cbv zeta.
  unfold capacity in Hcap. simpl in Hcap, Hidx. subst cursor.
  destruct slots as [|slot [|]]; simpl in Hcap; try lia.
  assert (Hfirst : allocate v1 {| storage := [slot]; next_index := 0 |}
                   = (tag T, {| storage := [v1]; next_index := 1 |})).
  { rewrite allocate_room by (unfold capacity; simpl; lia). reflexivity. }
  rewrite Hfirst. cbn [fst snd].
  assert (Hsecond : allocate v2 {| storage := [v1]; next_index := 1 |}
                    = (-1, {| storage := [v1]; next_index := 1 |})).
  { apply allocate_full. unfold capacity. simpl. lia. }
  rewrite Hsecond. cbn [fst snd storage].
  repeat split; try lia.
  - pose proof (dereference_in_range {| storage := [v1]; next_index := 1 |} (tag T)) as Hd.
    assert (Hix : ptr_index (tag T) = 0).
    { unfold ptr_index, SizeT.of_int64, SizeT.wrap, Int64.shr.
      rewrite Z.shiftr_div_pow2, Z.div_small by lia. reflexivity. }
    rewrite Hix in Hd. simpl in Hd.
    symmetry. injection (Hd ltac:(unfold capacity; simpl; lia)). auto.
  - intros h v Hroom. apply allocate_room_not_sentinel; assumption.
Qed.

Lemma arena_exhaustion_witness :
  let heap := new_heap double 1 in
  let first := (allocate 1%float heap).1 in
  let heap1 := (allocate 1%float heap).2 in
  first <> -1 /\
  (allocate 2%float heap1).1 = -1 /\
  (allocate 2%float heap1).2 = heap1 /\
  dereference (allocate 2%float heap1).2 first = 1%float.
Proof.
  cbv zeta.
  pose proof (arena_exhaustion double _ _ (new_heap double 1) 1%float 2%float)
    as Hex.
  cbv zeta in Hex.
  destruct Hex as (Hfirst & Hsecond & Hsame & _ & Hderef & _).
  - vm_compute. split; congruence.
  - reflexivity.
  - reflexivity.
  - repeat split; assumption.
Defined.

(** C8. [dereference] shifts the tag bits out, compares the index with the
    capacity only, and returns the slot when the index is below it, written
    or not, and the sentinel [-1] otherwise; the cursor plays no part and
    the arena is only read.  A Real-kind word made by hand with an index
    outside the arena is read by [as<double>] as [-1.0]. *)
Theorem dereference_bounds_check :
  forall (T : Type) (TT : TagTraits T) (OI : OfInt T)
         (heap : ConstexprHeap T) (ptr : int64_t),
    ptr_index ptr = (Z.shiftr ptr 3) mod 2 ^ 64 /\
    (ptr_index ptr < capacity heap ->
       storage heap !! Z.to_nat (ptr_index ptr) = Some (dereference heap ptr)) /\
    (capacity heap <= ptr_index ptr -> dereference heap ptr = of_int (-1)) /\
    (forall cursor : size_t,
       dereference {| storage := storage heap; next_index := cursor |} ptr
       = dereference heap ptr) /\
    (forall (double_heap : ConstexprHeap double) (self : TaggedValue),
       is_type double self = true ->
       capacity double_heap <= ptr_index (raw self) ->
       as_double self double_heap = (-1)%float).
Proof.
  intros T TT OI heap ptr. split; [reflexivity|].
  split; [apply dereference_in_range|].
  split; [apply dereference_out_of_range|].
  split; [reflexivity|].
  intros double_heap self Htype Hout. unfold as_double. rewrite Htype.
  rewrite dereference_out_of_range by exact Hout.
  apply of_int_double_minus_one.
Qed.

Lemma dereference_bounds_check_witness :
  let heap := (allocate 20.5%float (new_heap double 8)).2 in
  dereference heap 1 = 20.5%float /\
  dereference heap (Z.lor (Z.shiftl 5 3) 1) = 0%float /\
  dereference heap (Z.lor (Z.shiftl 8 3) 1) = (-1)%float /\
  as_double {| raw := Z.lor (Z.shiftl 8 3) 1 |} heap = (-1)%float /\
  as_double {| raw := -7 |} heap = (-1)%float.
Proof.
  cbv zeta.
  pose (heap := (allocate 20.5%float (new_heap double 8)).2).
  pose proof (dereference_bounds_check double _ _ heap) as Hb.
  split; [|split; [|split; [|split]]].
  - destruct (Hb 1) as (_ & Hin & _).
    assert (Hs : Some 20.5%float = Some (dereference heap 1))
      by (apply Hin; vm_compute; reflexivity).
    symmetry. exact (f_equal (from_option id 0%float) Hs).
  - destruct (Hb (Z.lor (Z.shiftl 5 3) 1)) as (_ & Hin & _).
    assert (Hs : Some 0%float = Some (dereference heap (Z.lor (Z.shiftl 5 3) 1)))
      by (apply Hin; vm_compute; reflexivity).
    symmetry. exact (f_equal (from_option id 0%float) Hs).
  - destruct (Hb (Z.lor (Z.shiftl 8 3) 1)) as (_ & _ & Hout & _).
    apply Hout. vm_compute. congruence.
  - destruct (Hb 0) as (_ & _ & _ & _ & Has).
    apply Has; [reflexivity | vm_compute; congruence].
  - destruct (Hb 0) as (_ & _ & _ & _ & Has).
    apply Has; [reflexivity | vm_compute; congruence].
Defined.

(** ** Generalized addition *)

(** The sum [add] forms on its integer path stays inside [int64_t]: both
    terms are decoded payloads (or the default [-1]). *)
Lemma payload_sum_in_range {Heap : Type} (a b : TaggedValue) (heap : Heap) :
  Int64.in_range (raw a) -> Int64.in_range (raw b) ->
  Int64.in_range (as_int64_t a heap + as_int64_t b heap).
Proof.
  assert (Hpay : forall x : TaggedValue, Int64.in_range (raw x) ->
                   - 2 ^ 60 <= as_int64_t x heap < 2 ^ 60).
  { intros x Hx. unfold as_int64_t. destruct (is_type int64_t x); [|lia].
    unfold IntPolicy.untag_value, Int64.shr. rewrite Z.shiftr_div_pow2 by lia.
    unfold Int64.in_range, Int64.min_signed, Int64.max_signed in Hx.
    split; [apply Z.div_le_lower_bound | apply Z.div_lt_upper_bound]; lia. }
  intros Ha Hb. pose proof (Hpay a Ha). pose proof (Hpay b Hb).
  unfold Int64.in_range, Int64.min_signed, Int64.max_signed. lia.
Qed.

Lemma is_type_bool_not_int64_t (self : TaggedValue) :
  is_type bool self = true -> is_type int64_t self = false.
Proof.
  unfold is_type. simpl. intros Hb. apply Z.eqb_eq in Hb. rewrite Hb. reflexivity.
Qed.

Lemma is_type_bool_not_double (self : TaggedValue) :
  is_type bool self = true -> is_type double self = false.
Proof.
  unfold is_type. simpl. intros Hb. apply Z.eqb_eq in Hb. rewrite Hb. reflexivity.
Qed.

Section AddFacts.
Context (NDEBUG : bool) {IntHeap : Type}.
Implicit Types (a b : TaggedValue) (int_heap : IntHeap)
  (double_heap : ConstexprHeap double) (value : double).

Lemma from_double_room value double_heap :
  next_index double_heap < capacity double_heap ->
  from_double NDEBUG value double_heap =
    Returned ({| raw := (allocate value double_heap).1 |},
              (allocate value double_heap).2).
Proof.
  intros Hroom. unfold from_double.
  assert (Htag : 0 <= tag double < 7) by (vm_compute; split; congruence).
  pose proof (allocate_room_not_sentinel double_heap value Htag Hroom) as Hne.
  destruct (allocate value double_heap) as [ptr heap']. simpl in Hne.
  destruct (Z.eqb_spec ptr (-1)); [contradiction | reflexivity].
Qed.

Lemma from_double_full value double_heap :
  capacity double_heap <= next_index double_heap ->
  from_double NDEBUG value double_heap =
    if NDEBUG then Returned ({| raw := -1 |}, double_heap) else Aborted.
Proof.
  intros Hfull. unfold from_double. rewrite allocate_full by exact Hfull.
  simpl. destruct NDEBUG; reflexivity.
Qed.

Lemma add_int_path a b int_heap double_heap :
  is_type int64_t a = true -> is_type int64_t b = true ->
  add NDEBUG a b int_heap double_heap =
    Returned
      ((from_int64_t
          (Int64.add (as_int64_t a int_heap) (as_int64_t b int_heap)) int_heap).1,
       int_heap, double_heap).
Proof. intros Ha Hb. unfold add. rewrite Ha, Hb. reflexivity. Qed.

Lemma add_promote_path a b int_heap double_heap :
  is_type int64_t a && is_type int64_t b = false ->
  add NDEBUG a b int_heap double_heap =
    '(r, double_heap') ←
      from_double NDEBUG
        (promote a int_heap double_heap + promote b int_heap double_heap)%float
        double_heap;
    Returned (r, int_heap, double_heap').
Proof. intros Hab. unfold add. rewrite Hab. reflexivity. Qed.

End AddFacts.

(** C3, as the code has it.  On two Integer-kind words [add] returns, with
    both arenas as they were, an Integer-kind word that decodes to the sum
    of the decoded operands reduced to the 61-bit payload: the sum itself
    whenever it lies in [- 2 ^ 60, 2 ^ 60).  [10 + 5] gives [15]. *)
Theorem add_int_int :
  forall (NDEBUG : bool) (IntHeap : Type) (int_heap : IntHeap)
         (double_heap : ConstexprHeap double) (a b : TaggedValue),
    is_type int64_t a = true -> is_type int64_t b = true ->
    exists r : TaggedValue,
      add NDEBUG a b int_heap double_heap = Returned (r, int_heap, double_heap) /\
      is_type int64_t r = true /\
      as_int64_t r int_heap
        = wrap61 (as_int64_t a int_heap + as_int64_t b int_heap) /\
      (- 2 ^ 60 <= as_int64_t a int_heap + as_int64_t b int_heap < 2 ^ 60 ->
       as_int64_t r int_heap = as_int64_t a int_heap + as_int64_t b int_heap) /\
      (a = (from_int64_t 10 int_heap).1 -> b = (from_int64_t 5 int_heap).1 ->
       as_int64_t r int_heap = 15).
Proof.
  intros NDEBUG IntHeap int_heap double_heap a b Ha Hb.
  eexists. split; [apply add_int_path; assumption|].
  split; [apply is_type_from_int64_t|].
  assert (Hdec : as_int64_t
                   (from_int64_t
                      (Int64.add (as_int64_t a int_heap) (as_int64_t b int_heap))
                      int_heap).1 int_heap
                 = wrap61 (as_int64_t a int_heap + as_int64_t b int_heap)).
  { rewrite as_from_int64_t. apply wrap61_wrap. }
  split; [exact Hdec|]. split.
  - intros Hsum. rewrite Hdec. apply wrap61_small, Hsum.
  - intros -> ->. rewrite Hdec. reflexivity.
Qed.

Lemma add_int_int_witness :
  exists r : TaggedValue,
    add false (from_int64_t 10 tt).1 (from_int64_t 5 tt).1 tt (new_heap double 8)
      = Returned (r, tt, new_heap double 8) /\
    is_type int64_t r = true /\
    as_int64_t r tt = 15.
Proof.
  destruct (add_int_int false unit tt (new_heap double 8)
              (from_int64_t 10 tt).1 (from_int64_t 5 tt).1
              eq_refl eq_refl) as (r & Hadd & Htype & _ & _ & Hval).
  exists r. split; [exact Hadd|]. split; [exact Htype|].
  apply Hval; reflexivity.
Defined.

(** C3 as stated fails: the operands decode to [2 ^ 60 - 1] and [1], whose
    sum [2 ^ 60] is an [int64_t] and needs no wrap-around, and the result
    decodes to [- 2 ^ 60]. *)
Lemma add_int_int_counterexample :
  let a := (from_int64_t (2 ^ 60 - 1) tt).1 in
  let b := (from_int64_t 1 tt).1 in
  is_type int64_t a = true /\ is_type int64_t b = true /\
  as_int64_t a tt = 2 ^ 60 - 1 /\ as_int64_t b tt = 1 /\
  Int64.add (as_int64_t a tt) (as_int64_t b tt) = 2 ^ 60 /\
  add false a b tt (new_heap double 8)
    = Returned ({| raw := - 2 ^ 63 |}, tt, new_heap double 8) /\
  as_int64_t {| raw := - 2 ^ 63 |} tt = - 2 ^ 60 /\
  as_int64_t {| raw := - 2 ^ 63 |} tt
    <> Int64.add (as_int64_t a tt) (as_int64_t b tt).
Proof.
  cbv zeta. repeat split; try (vm_compute; congruence).
Qed.

(** A pointer returned by a successful [allocate] of a well-formed arena
    of doubles reads back the value just stored. *)
Lemma allocate_dereference (double_heap : ConstexprHeap double) (value : double) :
  heap_wf double_heap ->
  next_index double_heap < capacity double_heap ->
  is_type double {| raw := (allocate value double_heap).1 |} = true /\
  dereference (allocate value double_heap).2 (allocate value double_heap).1 = value.
Proof.
  intros [Hidx Hcap] Hroom.
  pose proof (allocate_capacity double_heap value) as Hsame.
  rewrite allocate_room in * by exact Hroom. cbn [fst snd] in *.
  split.
  - unfold is_type. cbn [raw]. rewrite encode_tag by (vm_compute; split; congruence).
    reflexivity.
  - match goal with |- dereference ?h ?p = _ =>
      pose proof (dereference_in_range h p) as Hd end.
    rewrite encode_small in * by lia.
    rewrite ptr_index_encoded in Hd by (try lia; vm_compute; split; congruence).
    rewrite Hsame in Hd. specialize (Hd Hroom). cbn [storage] in Hd.
    rewrite list_lookup_insert_eq in Hd by (unfold capacity in Hroom; lia).
    injection Hd. auto.
Qed.

(** C4, as the code has it.  When an operand is not of Integer kind and
    the arena of doubles has a free slot, [add] converts an Integer-kind
    operand by decoding and widening it and any other operand through
    [as<double>], adds the two doubles, stores the sum by one [allocate] in
    the arena of doubles and returns the pointer: a Real-kind word that
    decodes to the sum.  [test_tagging], [10 + 20.5], returns [30.5]. *)
Theorem add_promotion :
  forall (NDEBUG : bool) (IntHeap : Type) (int_heap : IntHeap)
         (double_heap : ConstexprHeap double) (a b : TaggedValue),
    heap_wf double_heap ->
    next_index double_heap < capacity double_heap ->
    is_type int64_t a && is_type int64_t b = false ->
    let fa := if is_type int64_t a then (of_int (as_int64_t a int_heap) : double)
              else as_double a double_heap in
    let fb := if is_type int64_t b then (of_int (as_int64_t b int_heap) : double)
              else as_double b double_heap in
    exists (r : TaggedValue) (double_heap' : ConstexprHeap double),
      add NDEBUG a b int_heap double_heap = Returned (r, int_heap, double_heap') /\
      allocate (fa + fb)%float double_heap = (raw r, double_heap') /\
      is_type double r = true /\
      as_double r double_heap' = (fa + fb)%float /\
      test_tagging NDEBUG = Returned 30.5%float.
Proof.
  intros NDEBUG IntHeap int_heap double_heap a b Hwf Hroom Hab fa fb.
  destruct (allocate_dereference double_heap (fa + fb)%float Hwf Hroom)
    as [Htype Hderef].
  exists {| raw := (allocate (fa + fb)%float double_heap).1 |},
         (allocate (fa + fb)%float double_heap).2.
  split.
  - rewrite add_promote_path by exact Hab. fold fa fb.
    change (promote a int_heap double_heap) with fa.
    change (promote b int_heap double_heap) with fb.
    rewrite from_double_room by exact Hroom. reflexivity.
  - split; [destruct (allocate (fa + fb)%float double_heap); reflexivity|].
    split; [exact Htype|]. split.
    + unfold as_double, double in *. rewrite Htype. exact Hderef.
    + destruct NDEBUG; vm_compute; reflexivity.
Qed.

Lemma add_promotion_witness :
  let a := (from_int64_t 10 tt).1 in
  let b := {| raw := 1 |} in
  let double_heap := (allocate 20.5%float (new_heap double 8)).2 in
  exists (r : TaggedValue) (double_heap' : ConstexprHeap double),
    add false a b tt double_heap = Returned (r, tt, double_heap') /\
    is_type double r = true /\
    as_double r double_heap' = 30.5%float.
Proof.
  cbv zeta.
  destruct (add_promotion false unit tt
              (allocate 20.5%float (new_heap double 8)).2
              (from_int64_t 10 tt).1 {| raw := 1 |})
    as (r & double_heap' & Hadd & _ & Htype & Hval & _).
  - apply allocate_wf, new_heap_wf. simpl. lia.
  - vm_compute. reflexivity.
  - reflexivity.
  - exists r, double_heap'. split; [exact Hadd|]. split; [exact Htype|].
    rewrite Hval. vm_compute. reflexivity.
Defined.

(** C4 as stated fails when the arena of doubles is full.  In an arena of
    one slot that holds [20.5], [10 + 20.5] has nowhere to go: the
    assertion in [from<double>] stops the program, and with assertions
    compiled out [add] returns the word [-1], which is of no kind. *)
Lemma add_promotion_counterexample :
  let a := (from_int64_t 10 tt).1 in
  let b := {| raw := 1 |} in
  let double_heap := (allocate 20.5%float (new_heap double 1)).2 in
  from_double false 20.5%float (new_heap double 1) = Returned (b, double_heap) /\
  is_type int64_t a && is_type int64_t b = false /\
  as_double b double_heap = 20.5%float /\
  add false a b tt double_heap = Aborted /\
  add true a b tt double_heap = Returned ({| raw := -1 |}, tt, double_heap) /\
  is_type double {| raw := -1 |} = false.
Proof. cbv zeta. repeat split. Qed.

(** C9, as the code has it.  A Boolean-kind operand of [add] is not of
    Integer kind, so [add] takes the floating-point path and reads the
    operand with [as<double>]; its tag is not the Real tag either, so
    [as<double>] returns the wrong-kind default [-1.0] and does not look
    into the arena.  The sum is formed with [-1.0] in the operand's place,
    whether the boolean is true or false. *)
Theorem add_boolean_operand :
  forall (NDEBUG : bool) (IntHeap : Type) (int_heap : IntHeap)
         (double_heap : ConstexprHeap double) (a b : TaggedValue),
    is_type bool a = true ->
    let fb := if is_type int64_t b then (of_int (as_int64_t b int_heap) : double)
              else as_double b double_heap in
    is_type int64_t a = false /\
    is_type double a = false /\
    (forall any_heap : ConstexprHeap double, as_double a any_heap = (-1)%float) /\
    add NDEBUG a b int_heap double_heap =
      ('(r, double_heap') ← from_double NDEBUG (-1 + fb)%float double_heap;
       Returned (r, int_heap, double_heap')) /\
    add NDEBUG b a int_heap double_heap =
      ('(r, double_heap') ← from_double NDEBUG (fb + -1)%float double_heap;
       Returned (r, int_heap, double_heap')).
Proof.
  intros NDEBUG IntHeap int_heap double_heap a b Ha fb.
  pose proof (is_type_bool_not_int64_t a Ha) as Hint.
  pose proof (is_type_bool_not_double a Ha) as Hdouble.
  assert (Has : forall any_heap : ConstexprHeap double,
                  as_double a any_heap = (-1)%float).
  { intros any_heap. unfold as_double. rewrite Hdouble. reflexivity. }
  assert (Hpa : promote a int_heap double_heap = (-1)%float).
  { unfold promote. rewrite Hint. apply Has. }
  repeat split; try assumption.
  - rewrite add_promote_path by (rewrite Hint; reflexivity).
    rewrite Hpa. reflexivity.
  - rewrite add_promote_path by (rewrite Hint; apply andb_false_r).
    rewrite Hpa. reflexivity.
Qed.

Lemma add_boolean_operand_witness :
  let a := (from_bool true tt).1 in
  let b := (from_int64_t 10 tt).1 in
  let double_heap := (allocate 20.5%float (new_heap double 8)).2 in
  as_double a double_heap = (-1)%float /\
  add false a b tt double_heap =
    Returned ({| raw := 9 |}, tt, (allocate 9%float double_heap).2).
Proof.
  cbv zeta.
  destruct (add_boolean_operand false unit tt
              (allocate 20.5%float (new_heap double 8)).2
              (from_bool true tt).1 (from_int64_t 10 tt).1 eq_refl)
    as (_ & _ & Has & Hadd & _).
  split; [apply Has|]. rewrite Hadd. vm_compute. reflexivity.
Defined.

(** C9 as stated fails: the operand is not dereferenced.  The word of
    [true] is [0b011], whose index part is [0]; in an arena whose slot [0]
    holds [20.5] a dereference would pass the bounds check and read [20.5],
    and the operand counts as [-1.0]: [true + 10] is stored as [9.0]. *)
Lemma add_boolean_operand_counterexample :
  let a := (from_bool true tt).1 in
  let b := (from_int64_t 10 tt).1 in
  let double_heap := (allocate 20.5%float (new_heap double 8)).2 in
  is_type bool a = true /\
  ptr_index (raw a) = 0 /\ capacity double_heap = 8 /\
  dereference double_heap (raw a) = 20.5%float /\
  promote a tt double_heap = (-1)%float /\
  ~ (promote a tt double_heap = dereference double_heap (raw a)
     /\ capacity double_heap <= ptr_index (raw a)) /\
  (exists double_heap' : ConstexprHeap double,
     add false a b tt double_heap = Returned ({| raw := 9 |}, tt, double_heap') /\
     as_double {| raw := 9 |} double_heap' = 9%float).
Proof.
  cbv zeta. repeat split.
  - intros [_ Hle]. vm_compute in Hle. congruence.
  - eexists. split; vm_compute; reflexivity.
Qed.

(** C10. [add] gives the integer arena back as it got it, on every path.
    On the integer path the arena of doubles is untouched as well; on the
    promotion path it is what one [allocate] of the sum makes of it, and
    the result is the pointer of that call.  [add] stops the program only
    on the promotion path with a full arena of doubles and live
    assertions. *)
Theorem add_frame :
  forall (NDEBUG : bool) (IntHeap : Type) (int_heap : IntHeap)
         (double_heap : ConstexprHeap double) (a b : TaggedValue),
    match add NDEBUG a b int_heap double_heap with
    | Returned (r, int_heap', double_heap') =>
        int_heap' = int_heap /\
        (if is_type int64_t a && is_type int64_t b
         then double_heap' = double_heap
         else exists sum : double,
                allocate sum double_heap = (raw r, double_heap'))
    | Aborted =>
        is_type int64_t a && is_type int64_t b = false /\
        capacity double_heap <= next_index double_heap /\
        NDEBUG = false
    end.
Proof.
  intros NDEBUG IntHeap int_heap double_heap a b.
  destruct (is_type int64_t a && is_type int64_t b) eqn:Hab.
  - apply andb_true_iff in Hab as [Ha Hb].
    rewrite add_int_path by assumption. split; reflexivity.
  - rewrite add_promote_path by exact Hab.
    set (sum := (promote a int_heap double_heap
                 + promote b int_heap double_heap)%float).
    destruct (Z.lt_ge_cases (next_index double_heap) (capacity double_heap))
      as [Hroom | Hfull].
    + rewrite from_double_room by exact Hroom. simpl.
      split; [reflexivity|]. exists sum. apply surjective_pairing.
    + rewrite from_double_full by exact Hfull.
      destruct NDEBUG; simpl.
      * split; [reflexivity|]. exists sum. apply allocate_full, Hfull.
      * repeat split. exact Hfull.
Qed.

(** * Further properties of the code *)

(** ** Kinds *)

(** X1. No word is of two kinds, and some words are of none: the tags are
    three of the eight patterns of the low three bits. *)
Theorem kinds_exclusive :
  forall self : TaggedValue,
    is_type int64_t self && is_type double self = false /\
    is_type int64_t self && is_type bool self = false /\
    is_type double self && is_type bool self = false /\
    (Int64.and (raw self) 7 = 7 ->
     is_type int64_t self = false /\ is_type double self = false /\
     is_type bool self = false).
Proof.
  intros self. unfold is_type. simpl.
  unfold IntPolicy.tag, DoublePolicy.tag, BoolPolicy.tag.
  repeat split; try (intros ->; reflexivity);
    repeat match goal with |- context [?x =? ?y] => destruct (Z.eqb_spec x y) end;
    try reflexivity; lia.
Qed.

Lemma kinds_exclusive_witness :
  is_type int64_t {| raw := -1 |} = false /\
  is_type double {| raw := -1 |} = false /\
  is_type bool {| raw := -1 |} = false.
Proof.
  destruct (kinds_exclusive {| raw := -1 |}) as (_ & _ & _ & Hnone).
  apply Hnone. reflexivity.
Defined.

(** [BoolPolicy::untag_value] is true exactly on the words that have a bit
    set above the tag, that is on the words outside [0, 8). *)
Lemma bool_untag_value_true (value : int64_t) :
  BoolPolicy.untag_value value = true <-> ~ (0 <= value < 8).
Proof.
  unfold BoolPolicy.untag_value, Int64.and.
  change 7 with (Z.ones 3).
  rewrite <- Z.ldiff_land, Z.ldiff_ones_r by lia.
  rewrite Z.shiftl_mul_pow2, Z.shiftr_div_pow2 by lia.
  rewrite negb_true_iff, Z.eqb_neq.
  pose proof (Z.div_mod value (2 ^ 3) ltac:(lia)).
  pose proof (Z.mod_pos_bound value (2 ^ 3) ltac:(lia)).
  split; intros Hv; lia.
Qed.

(** X2. [as<bool>] reads [true] from exactly the Boolean-kind words other
    than the bare tag [0b011]; so from the word [(1 << 3) | 0b011], which
    the decoder expects for [true] and [from<bool>] never makes. *)
Theorem as_bool_true_iff :
  forall (Heap : Type) (heap : Heap) (self : TaggedValue),
    as_bool self heap = true <->
    Int64.and (raw self) 7 = 3 /\ raw self <> 3.
Proof.
  intros Heap heap self. unfold as_bool, is_type. simpl.
  unfold BoolPolicy.tag.
  destruct (Z.eqb_spec (Int64.and (raw self) 7) 3) as [Htag | Htag].
  - rewrite bool_untag_value_true. split.
    + intros Hv. split; [exact Htag|]. intros Heq. apply Hv. lia.
    + intros [_ Hne] Hsmall. apply Hne.
      unfold Int64.and in Htag. rewrite land7_mod8, Z.mod_small in Htag by lia.
      exact Htag.
  - split; [discriminate | intros [Heq _]; contradiction].
Qed.

Lemma as_bool_true_iff_witness :
  as_bool {| raw := Z.lor (Z.shiftl 1 3) 3 |} tt = true.
Proof.
  apply (as_bool_true_iff unit tt {| raw := Z.lor (Z.shiftl 1 3) 3 |}).
  vm_compute. split; congruence.
Defined.

(** ** Arena: sequences of calls *)

Section ArenaRuns.
Context {T : Type} `{TagTraits T} `{OfInt T}.
Implicit Types (heap : ConstexprHeap T) (value : T) (values pre : list T).

(** The general step of [allocate_all_new_heap]: an arena whose written
    prefix is [pre] and whose [k] free slots hold [z]. *)
Lemma allocate_all_prefix values : forall pre (k : nat) (z : T),
  Z.of_nat (length pre + k) < 2 ^ 64 ->
  allocate_all values
    {| storage := pre ++ replicate k z; next_index := Z.of_nat (length pre) |}
  = {| storage := pre ++ take k values ++ replicate (k - length values) z;
       next_index := Z.of_nat (length pre + Nat.min (length values) k) |}.
Proof.
  induction values as [|value values IH]; intros pre k z Hk.
  - simpl. rewrite take_nil, Nat.sub_0_r, Nat.add_0_r. reflexivity.
  - destruct k as [|k]; cbn [allocate_all].
    + rewrite allocate_full
        by (unfold capacity; cbn [storage next_index replicate];
            rewrite length_app; simpl; lia).
      cbn [snd]. rewrite (IH pre 0%nat z Hk).
      rewrite !take_0, Nat.min_0_r. reflexivity.
    + rewrite allocate_room
        by (unfold capacity; cbn [storage next_index];
            rewrite length_app, length_replicate; lia).
      cbn [snd storage next_index].
      rewrite Nat2Z.id.
      replace (length pre) with (length pre + 0)%nat at 1 by lia.
      rewrite insert_app_r. cbn [replicate].
      change (<[0%nat:=value]> (z :: replicate k z)) with (value :: replicate k z).
      replace (SizeT.wrap (Z.of_nat (length pre) + 1))
        with (Z.of_nat (length (pre ++ [value]))).
      2:{ rewrite length_app. simpl. unfold SizeT.wrap.
          rewrite Z.mod_small; lia. }
      replace (pre ++ value :: replicate k z)
        with ((pre ++ [value]) ++ replicate k z)
        by (rewrite <- app_assoc; reflexivity).
      rewrite IH by (rewrite length_app; simpl; lia).
      rewrite <- app_assoc, length_app. simpl.
      f_equal. f_equal. lia.
Qed.

(** The arena after a run of calls on a fresh one. *)
Lemma allocate_all_fresh (N : nat) values :
  Z.of_nat N < 2 ^ 64 ->
  allocate_all values (new_heap T N)
  = {| storage := take N values ++ replicate (N - length values) (of_int 0);
       next_index := Z.of_nat (Nat.min (length values) N) |}.
Proof.
  intros HN.
  exact (allocate_all_prefix values [] N (of_int 0) ltac:(simpl; lia)).
Qed.

End ArenaRuns.

(** X3. The state of an arena after any run of [allocate] calls on a fresh
    one: the slots hold the first [N] values in the order of the calls, the
    other slots still hold the [0] of value-initialization, and the cursor
    is the number of calls or [N], whichever is less.  So exactly the
    first [N] calls succeed, and nothing is ever overwritten. *)
Theorem allocate_all_new_heap :
  forall (T : Type) (TT : TagTraits T) (OI : OfInt T) (N : nat) (values : list T),
    Z.of_nat N < 2 ^ 64 ->
    storage (allocate_all values (new_heap T N))
      = take N values ++ replicate (N - length values) (of_int 0) /\
    next_index (allocate_all values (new_heap T N))
      = Z.of_nat (Nat.min (length values) N) /\
    (forall value : T,
       (allocate value (allocate_all values (new_heap T N))).2
         = allocate_all values (new_heap T N)
       <-> (N <= length values)%nat).
Proof.
  intros T TT OI N values HN.
  pose proof (allocate_all_fresh N values HN) as Hrun.
  rewrite Hrun. cbn [storage next_index].
  split; [reflexivity|]. split; [reflexivity|].
  intros value. split.
  - intros Hsame.
    destruct (Nat.le_gt_cases N (length values)) as [Hle | Hlt]; [exact Hle|].
    exfalso. rewrite allocate_room in Hsame.
    + apply (f_equal next_index) in Hsame. cbn [snd next_index] in Hsame.
      unfold SizeT.wrap in Hsame. rewrite Z.mod_small in Hsame; lia.
    + unfold capacity. cbn [storage next_index app].
      rewrite length_app, length_take, length_replicate. lia.
  - intros Hle. rewrite allocate_full; [reflexivity|].
    unfold capacity. cbn [storage next_index app].
    rewrite length_app, length_take, length_replicate. lia.
Qed.

Lemma allocate_all_new_heap_witness :
  (storage (allocate_all [1%float; 2%float; 3%float] (new_heap double 2))
   = [1%float; 2%float]) /\
  (next_index (allocate_all [1%float; 2%float; 3%float] (new_heap double 2))
   = 2) /\
  (storage (allocate_all [1%float] (new_heap double 3))
   = [1%float; 0%float; 0%float]).
Proof.
  destruct (allocate_all_new_heap double _ _ 2%nat [1%float; 2%float; 3%float])
    as (Hs & Hn & _); [vm_compute; reflexivity|].
  destruct (allocate_all_new_heap double _ _ 3%nat [1%float])
    as (Hs' & _); [vm_compute; reflexivity|].
  repeat split; assumption.
Defined.


(** ** Arena: pointers *)

Section PointerFacts.
Context {T : Type} `{TagTraits T} `{OfInt T}.
Implicit Types (heap : ConstexprHeap T) (value : T) (ptr : int64_t).

(** A slot other than the one under the cursor reads the same before and
    after [allocate]. *)
Lemma allocate_dereference_other heap value ptr :
  heap_wf heap -> ptr_index ptr <> next_index heap ->
  dereference (allocate value heap).2 ptr = dereference heap ptr.
Proof.
  intros Hwf Hne. unfold dereference.
  rewrite allocate_capacity.
  rewrite allocate_other_slots
    by (try assumption; pose proof (ptr_index_nonneg ptr); lia).
  reflexivity.
Qed.

(** The pointer of a successful [allocate], generic in the slot type. *)
Lemma allocate_reads_back heap value :
  heap_wf heap -> 0 <= tag T < 8 -> next_index heap < capacity heap ->
  ptr_index (allocate value heap).1 = next_index heap /\
  dereference (allocate value heap).2 (allocate value heap).1 = value.
Proof.
  intros [Hidx Hcap] Htag Hroom.
  pose proof (allocate_capacity heap value) as Hsame.
  rewrite allocate_room in * by exact Hroom. cbn [fst snd] in *.
  rewrite encode_small by lia.
  rewrite ptr_index_encoded by lia. split; [reflexivity|].
  match goal with |- dereference ?h ?p = _ =>
    pose proof (dereference_in_range h p) as Hd end.
  rewrite ptr_index_encoded in Hd by lia.
  rewrite Hsame in Hd. specialize (Hd Hroom). cbn [storage] in Hd.
  rewrite list_lookup_insert_eq in Hd by (unfold capacity in Hroom; lia).
  injection Hd. auto.
Qed.

End PointerFacts.

(** X4. A pointer handed out earlier stays good: whatever [allocate] is
    called with afterwards, and whether that call succeeds or not, a
    pointer to a slot below the cursor dereferences to the same value. *)
Theorem allocate_keeps_earlier_values :
  forall (T : Type) (TT : TagTraits T) (OI : OfInt T)
         (heap : ConstexprHeap T) (value : T) (ptr : int64_t),
    heap_wf heap ->
    ptr_index ptr < next_index heap ->
    dereference (allocate value heap).2 ptr = dereference heap ptr.
Proof.
  intros T TT OI heap value ptr Hwf Hbelow.
  apply allocate_dereference_other; [exact Hwf | lia].
Qed.

Lemma allocate_keeps_earlier_values_witness :
  let heap := (allocate 20.5%float (new_heap double 2)).2 in
  dereference (allocate 7%float heap).2 1 = dereference heap 1.
Proof.
  cbv zeta.
  apply (allocate_keeps_earlier_values double _ _
           (allocate 20.5%float (new_heap double 2)).2 7%float 1).
  - apply allocate_wf, new_heap_wf. simpl. lia.
  - vm_compute. reflexivity.
Defined.

(** X5. Two values boxed one after the other never share a slot: the two
    pointers differ, and after both calls each pointer dereferences to its
    own value. *)
Theorem allocate_twice_no_alias :
  forall (T : Type) (TT : TagTraits T) (OI : OfInt T)
         (heap : ConstexprHeap T) (v1 v2 : T),
    heap_wf heap -> 0 <= tag T < 8 ->
    next_index heap + 1 < capacity heap ->
    let p1 := (allocate v1 heap).1 in
    let heap1 := (allocate v1 heap).2 in
    let p2 := (allocate v2 heap1).1 in
    let heap2 := (allocate v2 heap1).2 in
    p1 <> p2 /\ dereference heap2 p1 = v1 /\ dereference heap2 p2 = v2.
Proof.
  intros T TT OI heap v1 v2 Hwf Htag Hroom. cbv zeta.
  pose proof (allocate_wf heap v1 Hwf) as Hwf1.
  destruct (allocate_reads_back heap v1 Hwf Htag ltac:(lia)) as [Hix1 Hread1].
  assert (Hnext : next_index (allocate v1 heap).2 = next_index heap + 1).
  { rewrite allocate_room by lia. cbn [snd next_index]. unfold SizeT.wrap.
    destruct Hwf as [Hidx Hcap]. apply Z.mod_small. lia. }
  assert (Hroom1 : next_index (allocate v1 heap).2 < capacity (allocate v1 heap).2)
    by (rewrite allocate_capacity; lia).
  destruct (allocate_reads_back (allocate v1 heap).2 v2 Hwf1 Htag Hroom1)
    as [Hix2 Hread2].
  split; [|split].
  - intros Heq. rewrite Heq in Hix1. lia.
  - rewrite allocate_dereference_other; [exact Hread1 | exact Hwf1 | lia].
  - exact Hread2.
Qed.

Lemma allocate_twice_no_alias_witness :
  let heap := new_heap double 2 in
  let p1 := (allocate 1%float heap).1 in
  let heap1 := (allocate 1%float heap).2 in
  let p2 := (allocate 2%float heap1).1 in
  let heap2 := (allocate 2%float heap1).2 in
  p1 <> p2 /\ dereference heap2 p1 = 1%float /\ dereference heap2 p2 = 2%float.
Proof.
  cbv zeta.
  apply (allocate_twice_no_alias double _ _ (new_heap double 2) 1%float 2%float).
  - apply new_heap_wf. simpl. lia.
  - vm_compute. split; congruence.
  - vm_compute. reflexivity.
Defined.

(** X6. No negative word reaches a slot: converted to [size_t], the index
    of a negative pointer is at least [2 ^ 64 - 2 ^ 60], beyond every
    arena, so [dereference] returns the sentinel.  The overflow sentinel
    [-1] of [allocate] is such a word. *)
Theorem dereference_negative :
  forall (T : Type) (TT : TagTraits T) (OI : OfInt T)
         (heap : ConstexprHeap T) (ptr : int64_t),
    heap_wf heap -> Int64.in_range ptr -> ptr < 0 ->
    dereference heap ptr = of_int (-1).
Proof.
  intros T TT OI heap ptr [_ Hcap] Hrange Hneg.
  apply dereference_out_of_range.
  unfold ptr_index, SizeT.of_int64, SizeT.wrap, Int64.shr.
  rewrite Z.shiftr_div_pow2 by lia.
  unfold Int64.in_range, Int64.min_signed, Int64.max_signed in Hrange.
  assert (Hq : - 2 ^ 60 <= ptr / 2 ^ 3 < 0).
  { split; [apply Z.div_le_lower_bound | apply Z.div_lt_upper_bound]; lia. }
  replace (ptr / 2 ^ 3) with (ptr / 2 ^ 3 + 2 ^ 64 + (-1) * 2 ^ 64) by lia.
  rewrite Z.mod_add, Z.mod_small by lia. lia.
Qed.

Lemma dereference_negative_witness :
  dereference (allocate 20.5%float (new_heap double 8)).2 (-1) = (-1)%float.
Proof.
  rewrite <- of_int_double_minus_one.
  apply (dereference_negative double _ _
           (allocate 20.5%float (new_heap double 8)).2 (-1)).
  - apply allocate_wf, new_heap_wf. simpl. lia.
  - vm_compute. split; congruence.
  - lia.
Defined.

(** ** Boxed doubles *)

Lemma is_type_double_not_others (self : TaggedValue) :
  is_type double self = true ->
  is_type int64_t self = false /\ is_type bool self = false.
Proof.
  unfold is_type. simpl. intros Hd. apply Z.eqb_eq in Hd. rewrite Hd.
  split; reflexivity.
Qed.

Lemma is_type_int64_t_not_others (self : TaggedValue) :
  is_type int64_t self = true ->
  is_type double self = false /\ is_type bool self = false.
Proof.
  unfold is_type. simpl. intros Hd. apply Z.eqb_eq in Hd. rewrite Hd.
  split; reflexivity.
Qed.

(** X7. Double round trip: with a free slot, [from<double>] returns a
    Real-kind word that [as<double>] reads back as the very value boxed,
    and the cursor has moved by one. *)
Theorem from_double_roundtrip :
  forall (NDEBUG : bool) (heap : ConstexprHeap double) (value : double),
    heap_wf heap ->
    next_index heap < capacity heap ->
    exists (r : TaggedValue) (heap' : ConstexprHeap double),
      from_double NDEBUG value heap = Returned (r, heap') /\
      is_type double r = true /\
      as_double r heap' = value /\
      next_index heap' = next_index heap + 1.
Proof.
  intros NDEBUG heap value Hwf Hroom.
  destruct (allocate_dereference heap value Hwf Hroom) as [Htype Hderef].
  exists {| raw := (allocate value heap).1 |}, (allocate value heap).2.
  split; [apply from_double_room, Hroom|].
  split; [exact Htype|]. split.
  - unfold as_double, double in *. rewrite Htype. exact Hderef.
  - rewrite allocate_room by exact Hroom. cbn [snd next_index].
    destruct Hwf as [Hidx Hcap]. unfold SizeT.wrap. apply Z.mod_small. lia.
Qed.

Lemma from_double_roundtrip_witness :
  exists (r : TaggedValue) (heap' : ConstexprHeap double),
    from_double false 20.5%float (new_heap double 8) = Returned (r, heap') /\
    is_type double r = true /\
    as_double r heap' = 20.5%float /\
    next_index heap' = 1.
Proof.
  apply (from_double_roundtrip false (new_heap double 8) 20.5%float).
  - apply new_heap_wf. simpl. lia.
  - vm_compute. reflexivity.
Defined.

(** X8. What [from<double>] returns is never of Integer or Boolean kind,
    and is of Real kind exactly when the arena had a free slot; on a full
    arena a call that returns (assertions compiled out) returns the word
    [-1] and the arena as it was. *)
Theorem from_double_kind :
  forall (NDEBUG : bool) (heap heap' : ConstexprHeap double)
         (value : double) (r : TaggedValue),
    from_double NDEBUG value heap = Returned (r, heap') ->
    is_type int64_t r = false /\
    is_type bool r = false /\
    (is_type double r = true <-> next_index heap < capacity heap) /\
    (capacity heap <= next_index heap -> raw r = -1 /\ heap' = heap).
Proof.
  intros NDEBUG heap heap' value r Hfrom.
  destruct (Z.lt_ge_cases (next_index heap) (capacity heap)) as [Hroom | Hfull].
  - rewrite from_double_room in Hfrom by exact Hroom.
    injection Hfrom as <- <-.
    assert (Htype : is_type double {| raw := (allocate value heap).1 |} = true).
    { rewrite allocate_room by exact Hroom. unfold is_type. cbn [fst raw].
      rewrite encode_tag by (vm_compute; split; congruence). reflexivity. }
    destruct (is_type_double_not_others _ Htype) as [Hi Hb].
    repeat split; try assumption; try lia; intros _; exact Htype.
  - rewrite from_double_full in Hfrom by exact Hfull.
    destruct NDEBUG; [|discriminate]. injection Hfrom as <- <-.
    repeat split; try reflexivity; try lia; discriminate.
Qed.

Lemma from_double_kind_witness :
  let heap := (allocate 20.5%float (new_heap double 1)).2 in
  is_type int64_t {| raw := -1 |} = false /\
  is_type bool {| raw := -1 |} = false /\
  (is_type double {| raw := -1 |} = true <-> next_index heap < capacity heap).
Proof.
  cbv zeta.
  destruct (from_double_kind true (allocate 20.5%float (new_heap double 1)).2
              (allocate 20.5%float (new_heap double 1)).2 7%float {| raw := -1 |})
    as (Hi & Hb & Hd & _); [reflexivity|].
  repeat split; try assumption; apply Hd.
Defined.

(** X9. [add] does not disturb the doubles boxed before it: a word whose
    index is below the cursor reads the same through [as<double>] after
    [add] as before, on either path of [add]. *)
Theorem add_keeps_boxed_values :
  forall (NDEBUG : bool) (IntHeap : Type) (int_heap : IntHeap)
         (double_heap : ConstexprHeap double) (a b self : TaggedValue),
    heap_wf double_heap ->
    ptr_index (raw self) < next_index double_heap ->
    match add NDEBUG a b int_heap double_heap with
    | Returned (_, _, double_heap') =>
        as_double self double_heap' = as_double self double_heap
    | Aborted => True
    end.
Proof.
  intros NDEBUG IntHeap int_heap double_heap a b self Hwf Hbelow.
  destruct (is_type int64_t a && is_type int64_t b) eqn:Hab.
  - apply andb_true_iff in Hab as [Ha Hb].
    rewrite add_int_path by assumption. reflexivity.
  - rewrite add_promote_path by exact Hab.
    set (sum := (promote a int_heap double_heap
                 + promote b int_heap double_heap)%float).
    destruct (Z.lt_ge_cases (next_index double_heap) (capacity double_heap))
      as [Hroom | Hfull].
    + rewrite from_double_room by exact Hroom. simpl.
      unfold as_double. destruct (is_type double self); [|reflexivity].
      apply allocate_dereference_other; [exact Hwf | lia].
    + rewrite from_double_full by exact Hfull.
      destruct NDEBUG; simpl; [reflexivity | exact I].
Qed.

Lemma add_keeps_boxed_values_witness :
  let double_heap := (allocate 20.5%float (new_heap double 8)).2 in
  exists (r : TaggedValue) (double_heap' : ConstexprHeap double),
    add false (from_int64_t 10 tt).1 {| raw := 1 |} tt double_heap
      = Returned (r, tt, double_heap') /\
    as_double {| raw := 1 |} double_heap' = as_double {| raw := 1 |} double_heap.
Proof.
  cbv zeta.
  pose proof (add_keeps_boxed_values false unit tt
                (allocate 20.5%float (new_heap double 8)).2
                (from_int64_t 10 tt).1 {| raw := 1 |} {| raw := 1 |}) as Hkeep.
  destruct (add false (from_int64_t 10 tt).1 {| raw := 1 |} tt
              (allocate 20.5%float (new_heap double 8)).2)
    as [[[r ih] dh']|] eqn:Hadd; [|vm_compute in Hadd; discriminate].
  destruct ih. exists r, dh'. split; [reflexivity|].
  apply Hkeep.
  - apply allocate_wf, new_heap_wf. simpl. lia.
  - vm_compute. reflexivity.
Defined.

(** ** Integer words *)

(** The word of an integer is eight times its 61-bit reduction. *)
Lemma tag_value_wrap61 v : IntPolicy.tag_value v = 8 * wrap61 v.
Proof.
  unfold IntPolicy.tag_value, Int64.or, IntPolicy.tag, Int64.shl, Int64.wrap, wrap61.
  rewrite Z.lor_0_r, Z.shiftl_mul_pow2 by lia.
  replace (v * 2 ^ 3 + 2 ^ 63) with (2 ^ 3 * (v + 2 ^ 60)) by lia.
  replace (2 ^ 64) with (2 ^ 3 * 2 ^ 61) by lia.
  rewrite Z.mul_mod_distr_l by lia. lia.
Qed.

Lemma wrap61_add_l x y : wrap61 (wrap61 x + y) = wrap61 (x + y).
Proof.
  unfold wrap61. f_equal.
  pose proof (Z.div_mod (x + 2 ^ 60) (2 ^ 61) ltac:(lia)) as Hdm.
  replace ((x + 2 ^ 60) mod 2 ^ 61 - 2 ^ 60 + y + 2 ^ 60)
    with (x + y + 2 ^ 60 + (- ((x + 2 ^ 60) / 2 ^ 61)) * 2 ^ 61) by lia.
  apply Z.mod_add. lia.
Qed.

Lemma wrap61_add_r x y : wrap61 (x + wrap61 y) = wrap61 (x + y).
Proof. rewrite Z.add_comm, wrap61_add_l, Z.add_comm. reflexivity. Qed.

(** An Integer-kind word is eight times what it decodes to, and what it
    decodes to has 61 bits. *)
Lemma int_word_decode {Heap : Type} (a : TaggedValue) (heap : Heap) :
  is_type int64_t a = true -> Int64.in_range (raw a) ->
  raw a = 8 * as_int64_t a heap /\ - 2 ^ 60 <= as_int64_t a heap < 2 ^ 60.
Proof.
  intros Ha Hrange. unfold as_int64_t. rewrite Ha.
  unfold is_type in Ha. simpl in Ha. apply Z.eqb_eq in Ha.
  unfold Int64.and, IntPolicy.tag in Ha. rewrite land7_mod8 in Ha.
  unfold IntPolicy.untag_value, Int64.shr. rewrite Z.shiftr_div_pow2 by lia.
  unfold Int64.in_range, Int64.min_signed, Int64.max_signed in Hrange.
  pose proof (Z.div_mod (raw a) 8 ltac:(lia)) as Hdm.
  change (2 ^ 3) with 8. lia.
Qed.

(** The word [add] returns on its integer path. *)
Lemma add_int_word (NDEBUG : bool) {IntHeap : Type} (a b : TaggedValue)
    (int_heap : IntHeap) (double_heap : ConstexprHeap double) :
  is_type int64_t a = true -> is_type int64_t b = true ->
  add NDEBUG a b int_heap double_heap =
    Returned
      ({| raw := 8 * wrap61 (as_int64_t a int_heap + as_int64_t b int_heap) |},
       int_heap, double_heap).
Proof.
  intros Ha Hb. rewrite add_int_path by assumption.
  unfold from_int64_t. cbn [fst]. rewrite tag_value_wrap61.
  unfold Int64.add. rewrite wrap61_wrap. reflexivity.
Qed.

Lemma is_type_int64_t_times8 (z : Z) : is_type int64_t {| raw := 8 * z |} = true.
Proof.
  unfold is_type. simpl. unfold Int64.and, IntPolicy.tag.
  rewrite land7_mod8, Z.mul_comm, Z.mod_mul by lia. reflexivity.
Qed.

Lemma as_int64_t_times8 {Heap : Type} (z : Z) (heap : Heap) :
  as_int64_t {| raw := 8 * z |} heap = z.
Proof.
  unfold as_int64_t. rewrite is_type_int64_t_times8. simpl.
  unfold IntPolicy.untag_value, Int64.shr. rewrite Z.shiftr_div_pow2 by lia.
  rewrite Z.mul_comm. apply Z.div_mul. lia.
Qed.

(** X10. Two integers get the same word exactly when they agree on their
    low 61 bits: inside the payload range [from<int64_t>] is injective,
    and [i] and [i + 2 ^ 61] collide. *)
Theorem from_int64_t_same_word_iff :
  forall (Heap : Type) (heap : Heap) (i j : int64_t),
    (from_int64_t i heap).1 = (from_int64_t j heap).1 <-> wrap61 i = wrap61 j.
Proof.
  intros Heap heap i j. unfold from_int64_t. cbn [fst].
  rewrite !tag_value_wrap61. split.
  - intros Heq. injection Heq. lia.
  - intros ->. reflexivity.
Qed.

Lemma from_int64_t_same_word_iff_witness :
  (from_int64_t 5 tt).1 = (from_int64_t (5 + 2 ^ 61) tt).1.
Proof.
  apply (from_int64_t_same_word_iff unit tt 5 (5 + 2 ^ 61)). reflexivity.
Defined.

(** X11. A value built at one kind reads as the default at the other two,
    for every integer and both booleans. *)
Theorem constructed_cross_kind_defaults :
  forall (Heap : Type) (heap : Heap) (double_heap : ConstexprHeap double)
         (v : int64_t) (b : bool),
    as_bool (from_int64_t v heap).1 heap = false /\
    as_double (from_int64_t v heap).1 double_heap = (-1)%float /\
    as_int64_t (from_bool b heap).1 heap = -1 /\
    as_double (from_bool b heap).1 double_heap = (-1)%float.
Proof.
  intros Heap heap double_heap v b.
  destruct (is_type_int64_t_not_others _ (is_type_from_int64_t v heap))
    as [Hd Hb].
  unfold as_bool, as_double. rewrite Hd, Hb.
  destruct b; repeat split.
Qed.

(** X12. The Integer-kind word of [0] is neutral for [add], on either side:
    the sum is the other operand, the very same word. *)
Theorem add_zero_neutral :
  forall (NDEBUG : bool) (IntHeap : Type) (int_heap : IntHeap)
         (double_heap : ConstexprHeap double) (a : TaggedValue),
    is_type int64_t a = true -> Int64.in_range (raw a) ->
    add NDEBUG a (from_int64_t 0 int_heap).1 int_heap double_heap
      = Returned (a, int_heap, double_heap) /\
    add NDEBUG (from_int64_t 0 int_heap).1 a int_heap double_heap
      = Returned (a, int_heap, double_heap).
Proof.
  intros NDEBUG IntHeap int_heap double_heap a Ha Hrange.
  destruct (int_word_decode a int_heap Ha Hrange) as [Hraw Hpay].
  pose proof (is_type_from_int64_t 0 int_heap) as Hz.
  pose proof (as_from_int64_t 0 int_heap int_heap) as Hz0.
  change (wrap61 0) with 0 in Hz0.
  rewrite !add_int_word by assumption. rewrite Hz0.
  rewrite Z.add_0_r, Z.add_0_l, wrap61_small, <- Hraw by exact Hpay.
  destruct a. split; reflexivity.
Qed.

Lemma add_zero_neutral_witness :
  add false (from_int64_t (-7) tt).1 (from_int64_t 0 tt).1 tt (new_heap double 8)
    = Returned ((from_int64_t (-7) tt).1, tt, new_heap double 8).
Proof.
  apply (add_zero_neutral false unit tt (new_heap double 8)
           (from_int64_t (-7) tt).1).
  - reflexivity.
  - vm_compute. split; congruence.
Defined.

(** X13. On Integer-kind words [add] is commutative and associative: the
    reduction to 61 bits after each step does not depend on the order or
    the grouping. *)
Theorem add_int_commutative_associative :
  forall (NDEBUG : bool) (IntHeap : Type) (int_heap : IntHeap)
         (double_heap : ConstexprHeap double) (a b c : TaggedValue),
    is_type int64_t a = true -> is_type int64_t b = true ->
    is_type int64_t c = true ->
    add NDEBUG a b int_heap double_heap = add NDEBUG b a int_heap double_heap /\
    exists ab bc abc : TaggedValue,
      add NDEBUG a b int_heap double_heap = Returned (ab, int_heap, double_heap) /\
      add NDEBUG b c int_heap double_heap = Returned (bc, int_heap, double_heap) /\
      add NDEBUG ab c int_heap double_heap = Returned (abc, int_heap, double_heap) /\
      add NDEBUG a bc int_heap double_heap = Returned (abc, int_heap, double_heap).
Proof.
  intros NDEBUG IntHeap int_heap double_heap a b c Ha Hb Hc.
  split.
  - rewrite !add_int_word by assumption. rewrite Z.add_comm. reflexivity.
  - eexists _, _, _.
    split; [apply add_int_word; assumption|].
    split; [apply add_int_word; assumption|].
    rewrite !add_int_word by (try assumption; apply is_type_int64_t_times8).
    rewrite !as_int64_t_times8, wrap61_add_l, wrap61_add_r, Z.add_assoc.
    split; reflexivity.
Qed.

Lemma add_int_commutative_associative_witness :
  let a := (from_int64_t (2 ^ 60 - 1) tt).1 in
  let b := (from_int64_t 1 tt).1 in
  let c := (from_int64_t (-1) tt).1 in
  exists ab bc abc : TaggedValue,
    add false a b tt (new_heap double 8) = Returned (ab, tt, new_heap double 8) /\
    add false b c tt (new_heap double 8) = Returned (bc, tt, new_heap double 8) /\
    add false ab c tt (new_heap double 8) = Returned (abc, tt, new_heap double 8) /\
    add false a bc tt (new_heap double 8) = Returned (abc, tt, new_heap double 8).
Proof.
  cbv zeta.
  apply (add_int_commutative_associative false unit tt (new_heap double 8)
           (from_int64_t (2 ^ 60 - 1) tt).1 (from_int64_t 1 tt).1
           (from_int64_t (-1) tt).1); reflexivity.
Defined.

(** X14. Reading an arena after a run of [allocate] calls on a fresh one:
    an index inside the array reads the value of the call with that
    number, and a slot no call has reached reads as [0], not as the
    sentinel; [dereference] does not tell the two apart. *)
Theorem dereference_after_allocate_all :
  forall (T : Type) (TT : TagTraits T) (OI : OfInt T) (N : nat)
         (values : list T) (ptr : int64_t),
    Z.of_nat N < 2 ^ 64 ->
    ptr_index ptr < Z.of_nat N ->
    dereference (allocate_all values (new_heap T N)) ptr
    = from_option id (of_int 0) (values !! Z.to_nat (ptr_index ptr)).
Proof.
  intros T TT OI N values ptr HN Hin.
  pose proof (ptr_index_nonneg ptr) as Hpos.
  rewrite allocate_all_fresh by exact HN.
  match goal with |- dereference ?h _ = _ =>
    pose proof (dereference_in_range h ptr) as Hd end.
  assert (Hcap : capacity
            {| storage := take N values
                          ++ replicate (N - length values) (of_int 0);
               next_index := Z.of_nat (Nat.min (length values) N) |}
          = Z.of_nat N).
  { unfold capacity. cbn [storage].
    rewrite length_app, length_take, length_replicate. lia. }
  rewrite Hcap in Hd. specialize (Hd Hin). cbn [storage] in Hd.
  set (i := Z.to_nat (ptr_index ptr)) in *.
  assert (Hi : (i < N)%nat) by (subst i; lia).
  destruct (Nat.lt_ge_cases i (length values)) as [Hlt | Hge].
  - rewrite lookup_app_l in Hd by (rewrite length_take; lia).
    rewrite lookup_take_lt in Hd by exact Hi.
    rewrite Hd. reflexivity.
  - rewrite lookup_app_r in Hd by (rewrite length_take; lia).
    rewrite lookup_replicate_2 in Hd by (rewrite length_take; lia).
    rewrite (proj2 (lookup_ge_None values i) Hge). simpl.
    injection Hd. auto.
Qed.

Lemma dereference_after_allocate_all_witness :
  (dereference (allocate_all [1%float; 2%float] (new_heap double 4)) 9
   = 2%float) /\
  (dereference (allocate_all [1%float; 2%float] (new_heap double 4)) 25
   = 0%float).
Proof.
  split.
  - rewrite (dereference_after_allocate_all double _ _ 4%nat
               [1%float; 2%float] 9) by (vm_compute; reflexivity).
    reflexivity.
  - rewrite (dereference_after_allocate_all double _ _ 4%nat
               [1%float; 2%float] 25) by (vm_compute; reflexivity).
    reflexivity.
Defined.

(** X15. An operand of [add] that is neither of Integer kind nor a Real-kind
    word with an index inside the arena counts as [-1.0]: so a Boolean, a
    word of no kind such as the [-1] of a failed construction, and a stale
    or forged pointer. *)
Theorem add_unreadable_operand :
  forall (NDEBUG : bool) (IntHeap : Type) (int_heap : IntHeap)
         (double_heap : ConstexprHeap double) (a b : TaggedValue),
    is_type int64_t a = false ->
    is_type double a = false \/ capacity double_heap <= ptr_index (raw a) ->
    let fb := if is_type int64_t b then (of_int (as_int64_t b int_heap) : double)
              else as_double b double_heap in
    add NDEBUG a b int_heap double_heap =
      ('(r, double_heap') ← from_double NDEBUG (-1 + fb)%float double_heap;
       Returned (r, int_heap, double_heap')) /\
    add NDEBUG b a int_heap double_heap =
      ('(r, double_heap') ← from_double NDEBUG (fb + -1)%float double_heap;
       Returned (r, int_heap, double_heap')).
Proof.
  intros NDEBUG IntHeap int_heap double_heap a b Hint Hbad fb.
  assert (Hpa : promote a int_heap double_heap = (-1)%float).
  { unfold promote, as_double. rewrite Hint.
    destruct Hbad as [Hkind | Hout].
    - rewrite Hkind. reflexivity.
    - destruct (is_type double a); [|reflexivity].
      rewrite dereference_out_of_range by exact Hout.
      apply of_int_double_minus_one. }
  split.
  - rewrite add_promote_path by (rewrite Hint; reflexivity).
    rewrite Hpa. reflexivity.
  - rewrite add_promote_path by (rewrite Hint; apply andb_false_r).
    rewrite Hpa. reflexivity.
Qed.

Lemma add_unreadable_operand_witness :
  let double_heap := new_heap double 2 in
  add true {| raw := -1 |} (from_int64_t 10 tt).1 tt double_heap
    = Returned ({| raw := 1 |}, tt, (allocate 9%float double_heap).2) /\
  add true (from_int64_t 10 tt).1 {| raw := Z.lor (Z.shiftl 2 3) 1 |} tt double_heap
    = Returned ({| raw := 1 |}, tt, (allocate 9%float double_heap).2).
Proof.
  cbv zeta.
  destruct (add_unreadable_operand true unit tt (new_heap double 2)
              {| raw := -1 |} (from_int64_t 10 tt).1 eq_refl (or_introl eq_refl))
    as [Hl _].
  destruct (add_unreadable_operand true unit tt (new_heap double 2)
              {| raw := Z.lor (Z.shiftl 2 3) 1 |} (from_int64_t 10 tt).1 eq_refl)
    as [_ Hr]; [right; vm_compute; congruence|].
  split; [rewrite Hl | rewrite Hr]; vm_compute; reflexivity.
Defined.
